(** * Stopwatch firmware (firmware/main.c): lap store, busy-wait delay and
      control loop, embedded shallowly and verified.

    The firmware runs on a 32-bit soft core (rv32i, ilp32).  [int] and
    [unsigned int] are 32 bits wide, [unsigned char] is 8 bits wide, and a
    pointer is a 32-bit address.  The memory-mapped stopwatch is reached
    through the generated CSR accessors; what it answers to a read is not
    part of the firmware and is a parameter of the development. *)

From Stdlib Require Import ZArith List Bool Lia.
Import ListNotations.
Local Open Scope Z_scope.

(** ** Machine arithmetic *)

(** [unsigned int]: arithmetic modulo 2^32. *)
Definition wrap_uint (z : Z) : Z := z mod 2 ^ 32.

(** [int]: two's complement on 32 bits. *)
Definition wrap_int (z : Z) : Z := (z + 2 ^ 31) mod 2 ^ 32 - 2 ^ 31.

(** The cast [(unsigned char)v]. *)
Definition to_uchar (z : Z) : Z := z mod 256.

(** ** Compile-time constants *)

Definition MAX_LAPS : Z := 16.
Definition LAP_RECORD_SIZE : Z := 3.

(** ** The device seen from the firmware *)

Inductive csr_reg : Type := START | STOP | RESET | MINUTES | SECONDS | TICKS.

(** One access to a CSR of the stopwatch. *)
Inductive event : Type :=
| CsrWrite (r : csr_reg) (v : Z)
| CsrRead (r : csr_reg) (v : Z).

(** ** Program state *)

(** The three bytes handed back by [read_lap] through [*m], [*s], [*t]. *)
Record LapRecord : Type := mkLap { lap_m : Z; lap_s : Z; lap_t : Z }.

Definition zero_lap : LapRecord := mkLap 0 0 0.

(** Globals of the translation unit, the byte-addressed memory and the
    history of CSR accesses (oldest first). *)
Record state : Type := mkState {
  lap_count : Z;
  ram : Z -> Z;
  trace : list event
}.

Definition load (m : Z -> Z) (a : Z) : Z := to_uchar (m a).

Definition store (m : Z -> Z) (a v : Z) : Z -> Z :=
  fun x => if x =? a then v else m x.

(** [p[i]] for a byte pointer [p]: the address [p + i] on 32 bits. *)
Definition addr_of (p i : Z) : Z := wrap_uint (p + i).

(** [v--] on an [unsigned int] used as a loop condition: the test sees the
    old value, the variable keeps the decremented one. *)
Definition post_dec (v : Z) : bool * Z := (negb (v =? 0), wrap_uint (v - 1)).

(** [while (d--);] *)
Fixpoint busy_wait (fuel : nat) (d : Z) : option Z :=
  match fuel with
  | O => None
  | S k =>
      let '(c, d') := post_dec d in
      if c then busy_wait k d' else Some d'
  end.

(** [while (ms--) { volatile unsigned int d = 1000; while (d--); }] *)
Fixpoint delay_loop (inner : nat) (fuel : nat) (ms : Z) : option Z :=
  match fuel with
  | O => None
  | S k =>
      let '(c, ms') := post_dec ms in
      if c then
        match busy_wait inner 1000 with
        | None => None
        | Some _ => delay_loop inner k ms'
        end
      else Some ms'
  end.

(** [delay_ms(ms)]: only its two locals are touched. *)
Definition delay_ms (fuel : nat) (ms : Z) (s : state) : option state :=
  match delay_loop fuel fuel (wrap_uint ms) with
  | None => None
  | Some _ => Some s
  end.

(** ** A concrete board, for running the definitions *)

(** Base of main RAM on the target build. *)
Definition demo_base : Z := 1073741824.

(** A stopwatch whose registers all show the number of CSR accesses made
    so far, offset by [k]. *)
Definition counting_stopwatch (k : Z) (h : list event) (r : csr_reg) : Z :=
  k + Z.of_nat (length h).

(** Memory filled with the byte [b]. *)
Definition filled (b : Z) : Z -> Z := fun _ => b.

Section Firmware.

(** [MAIN_RAM_BASE] comes from generated/mem.h. *)
Variable MAIN_RAM_BASE : Z.

(** What the stopwatch answers when register [r] is read after the
    accesses [h]; the accessors come from generated/csr.h. *)
Variable stopwatch : list event -> csr_reg -> Z.

Definition lap_mem : Z := wrap_uint MAIN_RAM_BASE.

Definition csr_write (r : csr_reg) (v : Z) (s : state) : state :=
  mkState (lap_count s) (ram s) (trace s ++ [CsrWrite r v]).

Definition csr_read (r : csr_reg) (s : state) : Z * state :=
  let v := stopwatch (trace s) r in
  (v, mkState (lap_count s) (ram s) (trace s ++ [CsrRead r v])).

(** [lap_mem[i] = v] *)
Definition poke (i v : Z) (s : state) : state :=
  mkState (lap_count s) (store (ram s) (addr_of lap_mem i) v) (trace s).

(** [lap_mem[i]] *)
Definition peek (i : Z) (s : state) : Z := load (ram s) (addr_of lap_mem i).

Definition save_lap (s : state) : state :=
  if lap_count s >=? MAX_LAPS then s
  else
    let base := wrap_int (lap_count s * LAP_RECORD_SIZE) in
    let '(v0, s0) := csr_read MINUTES s in
    let s0 := poke (wrap_int (base + 0)) (to_uchar v0) s0 in
    let '(v1, s1) := csr_read SECONDS s0 in
    let s1 := poke (wrap_int (base + 1)) (to_uchar v1) s1 in
    let '(v2, s2) := csr_read TICKS s1 in
    let s2 := poke (wrap_int (base + 2)) (to_uchar v2) s2 in
    mkState (wrap_int (lap_count s2 + 1)) (ram s2) (trace s2).

Definition read_lap (index : Z) (s : state) : LapRecord :=
  if index >=? lap_count s then zero_lap
  else
    let base := wrap_int (index * LAP_RECORD_SIZE) in
    mkLap (peek (wrap_int (base + 0)) s)
          (peek (wrap_int (base + 1)) s)
          (peek (wrap_int (base + 2)) s).

(** *** [main] as a machine

    [INIT] is the entry of [main], [RUNNING] the head of the first
    [while (1)], [HALTED] the final [while (1);]. *)
Inductive phase : Type := INIT | RUNNING | HALTED.

(** [shown] holds the locals [m], [s], [t] of the loop body once they
    have been assigned. *)
Record config : Type := mkConfig {
  at_phase : phase;
  globals : state;
  shown : option LapRecord
}.

(** The argument of the call [read_lap(lap_count - 1, ...)]. *)
Definition verify_index (s : state) : Z := wrap_int (lap_count s - 1).

Definition step (fuel : nat) (c : config) : option config :=
  match at_phase c with
  | INIT =>
      let s := csr_write RESET 1 (globals c) in
      let s := csr_write RESET 0 s in
      let s := csr_write START 1 s in
      let s := csr_write START 0 s in
      Some (mkConfig RUNNING s (shown c))
  | RUNNING =>
      match delay_ms fuel 5000 (globals c) with
      | None => None
      | Some s =>
          let s := save_lap s in
          let r := read_lap (verify_index s) s in
          if lap_count s >=? MAX_LAPS then
            let s := csr_write STOP 1 s in
            let s := csr_write STOP 0 s in
            Some (mkConfig HALTED s (Some r))
          else Some (mkConfig RUNNING s (Some r))
      end
  | HALTED => Some c
  end.

Fixpoint run (fuel : nat) (n : nat) (c : config) : option config :=
  match n with
  | O => Some c
  | S k =>
      match step fuel c with
      | None => None
      | Some c' => run fuel k c'
      end
  end.

(** Entry of [main]: [lap_count] is initialised to 0, memory holds
    whatever it held, no CSR has been accessed. *)
Definition empty_store (ram0 : Z -> Z) : state := mkState 0 ram0 [].

Definition boot (ram0 : Z -> Z) : config := mkConfig INIT (empty_store ram0) None.

(** *** Vocabulary of the statements *)

(** The three registers as [save_lap] reads them after the accesses [h],
    one after the other. *)
Definition device_fields (h : list event) : Z * Z * Z :=
  let m := stopwatch h MINUTES in
  let s := stopwatch (h ++ [CsrRead MINUTES m]) SECONDS in
  let t := stopwatch (h ++ [CsrRead MINUTES m] ++ [CsrRead SECONDS s]) TICKS in
  (m, s, t).

Definition capture (h : list event) : LapRecord :=
  let '(m, s, t) := device_fields h in
  mkLap (to_uchar m) (to_uchar s) (to_uchar t).

(** The state [save_lap] leaves when there is room. *)
Definition saved (s : state) : state :=
  let c := lap_count s in
  let '(m, sec, t) := device_fields (trace s) in
  mkState (c + 1)
    (store (store (store (ram s)
        (addr_of lap_mem (3 * c)) (to_uchar m))
        (addr_of lap_mem (3 * c + 1)) (to_uchar sec))
        (addr_of lap_mem (3 * c + 2)) (to_uchar t))
    (trace s ++ [CsrRead MINUTES m] ++ [CsrRead SECONDS sec] ++ [CsrRead TICKS t]).

(** [s'] comes from [s] by filling the slots from the count of [s] up to
    the count of [s'], and by nothing else. *)
Definition grows_to (s s' : state) : Prop :=
  lap_count s <= lap_count s' /\
  forall a,
    (forall k, 3 * lap_count s <= k < 3 * lap_count s' -> a <> addr_of lap_mem k) ->
    ram s' a = ram s a.

(** The two writes that make a pulse on a command line. *)
Definition pulse (r : csr_reg) : list event := [CsrWrite r 1; CsrWrite r 0].

(** What [main] writes before its loop. *)
Definition init_pulses : list event := pulse RESET ++ pulse START.

(** A write to the reset or to the start line. *)
Definition is_init_cmd (e : event) : bool :=
  match e with
  | CsrWrite RESET _ | CsrWrite START _ => true
  | _ => false
  end.

(** A write to any command line. *)
Definition is_write (e : event) : bool :=
  match e with
  | CsrWrite _ _ => true
  | CsrRead _ _ => false
  end.

(** What holds of every configuration [main] goes through. *)
Definition count_ok (c : config) : Prop :=
  match at_phase c with
  | INIT => lap_count (globals c) = 0
  | RUNNING => 0 <= lap_count (globals c) < MAX_LAPS
  | HALTED => lap_count (globals c) = MAX_LAPS
  end.

Definition trace_ok (c : config) : Prop :=
  match at_phase c with
  | INIT => trace (globals c) = []
  | _ => exists rest,
      trace (globals c) = init_pulses ++ rest /\
      forallb (fun e => negb (is_init_cmd e)) rest = true
  end.

(** What one pass through the body of the loop of [main] leaves, when
    there is room for a lap. *)
Definition cycle (c : config) : config :=
  let s := saved (globals c) in
  let r := Some (capture (trace (globals c))) in
  if lap_count s >=? MAX_LAPS then
    mkConfig HALTED (csr_write STOP 0 (csr_write STOP 1 s)) r
  else mkConfig RUNNING s r.

(** The globals when [main] enters its loop. *)
Definition started (ram0 : Z -> Z) : state := mkState 0 ram0 init_pulses.

(** The three bytes of slot [i] of the lap region. *)
Definition slot (i : Z) (s : state) : LapRecord :=
  mkLap (peek (3 * i) s) (peek (3 * i + 1) s) (peek (3 * i + 2) s).

(** [n] calls of [save_lap]. *)
Fixpoint appends (n : nat) (s : state) : state :=
  match n with
  | O => s
  | S k => save_lap (appends k s)
  end.

(** Operations of the lap store. *)
Inductive op : Type := Append | Read (index : Z).

Definition exec_op (o : op) (s : state) : state :=
  match o with
  | Append => save_lap s
  | Read i => let _ := read_lap i s in s
  end.

Definition exec_ops (os : list op) (s : state) : state :=
  fold_left (fun acc o => exec_op o acc) os s.

(** The register an access goes to. *)
Definition event_reg (e : event) : csr_reg :=
  match e with
  | CsrWrite r _ | CsrRead r _ => r
  end.

(** The registers one call of [save_lap] reads, in program order. *)
Definition lap_reads : list csr_reg := [MINUTES; SECONDS; TICKS].

(** The registers [main] has accessed, oldest first, when it is in phase
    [p] with [laps] records stored. *)
Definition access_order (p : phase) (laps : nat) : list csr_reg :=
  match p with
  | INIT => []
  | RUNNING =>
      [RESET; RESET; START; START] ++ concat (repeat lap_reads laps)
  | HALTED =>
      ([RESET; RESET; START; START] ++ concat (repeat lap_reads laps))
      ++ [STOP; STOP]
  end.

(** The command writes [main] has made when it is in phase [p]. *)
Definition writes_of (p : phase) : list event :=
  match p with
  | INIT => []
  | RUNNING => init_pulses
  | HALTED => init_pulses ++ pulse STOP
  end.


(** ** Machine arithmetic on the values the firmware meets *)

Lemma wrap_int_small (z : Z) :
  - 2 ^ 31 <= z < 2 ^ 31 -> wrap_int z = z.
Proof.
  intros Hz. unfold wrap_int.
  rewrite Z.mod_small by lia. lia.
Qed.

Lemma wrap_uint_small (z : Z) :
  0 <= z < 2 ^ 32 -> wrap_uint z = z.
Proof.
  intros Hz. unfold wrap_uint. now apply Z.mod_small.
Qed.

Lemma to_uchar_idem (z : Z) : to_uchar (to_uchar z) = to_uchar z.
Proof.
  unfold to_uchar. apply Z.mod_mod. lia.
Qed.

Lemma to_uchar_small (z : Z) : 0 <= z < 256 -> to_uchar z = z.
Proof.
  intros Hz. unfold to_uchar. now apply Z.mod_small.
Qed.

(** Two offsets less than 2^32 apart never alias. *)
Lemma addr_of_inj (p i j : Z) :
  - 2 ^ 32 < i - j < 2 ^ 32 ->
  addr_of p i = addr_of p j -> i = j.
Proof.
  unfold addr_of, wrap_uint. intros Hd He.
  pose proof (Z.div_mod (p + i) (2 ^ 32) ltac:(lia)) as Hi.
  pose proof (Z.div_mod (p + j) (2 ^ 32) ltac:(lia)) as Hj.
  rewrite He in Hi.
  change (2 ^ 32) with 4294967296 in *.
  lia.
Qed.

Lemma geb_false_lt (a b : Z) : (a >=? b) = false <-> a < b.
Proof.
  rewrite Z.geb_leb. apply Z.leb_gt.
Qed.

Lemma geb_true_le (a b : Z) : (a >=? b) = true <-> b <= a.
Proof.
  rewrite Z.geb_leb. apply Z.leb_le.
Qed.

(** ** Memory *)

Lemma load_store_same (m : Z -> Z) (a v : Z) :
  load (store m a v) a = to_uchar v.
Proof.
  unfold load, store. now rewrite Z.eqb_refl.
Qed.

Lemma load_store_other (m : Z -> Z) (a b v : Z) :
  a <> b -> load (store m b v) a = load m a.
Proof.
  intros Hab. unfold load, store.
  destruct (Z.eqb_spec a b); [contradiction | reflexivity].
Qed.

Lemma store_other (m : Z -> Z) (a b v : Z) :
  a <> b -> store m b v a = m a.
Proof.
  intros Hab. unfold store.
  destruct (Z.eqb_spec a b); [contradiction | reflexivity].
Qed.

(** ** [save_lap] *)

Lemma save_lap_full (s : state) :
  MAX_LAPS <= lap_count s -> save_lap s = s.
Proof.
  intros Hfull. unfold save_lap.
  now rewrite (proj2 (geb_true_le _ _) Hfull).
Qed.

Lemma save_lap_room (s : state) :
  0 <= lap_count s < MAX_LAPS -> save_lap s = saved s.
Proof.
  unfold MAX_LAPS. intros Hc. unfold save_lap, saved, device_fields.
  rewrite (proj2 (geb_false_lt _ _)) by (unfold MAX_LAPS; lia).
  unfold csr_read, poke, LAP_RECORD_SIZE. cbn [lap_count ram trace].
  rewrite (wrap_int_small (lap_count s * 3)) by lia.
  rewrite !wrap_int_small by lia.
  rewrite <- !app_assoc.
  replace (lap_count s * 3 + 0) with (3 * lap_count s) by lia.
  replace (lap_count s * 3 + 1) with (3 * lap_count s + 1) by lia.
  replace (lap_count s * 3 + 2) with (3 * lap_count s + 2) by lia.
  reflexivity.
Qed.

Lemma lap_count_saved (s : state) : lap_count (saved s) = lap_count s + 1.
Proof.
  unfold saved. destruct (device_fields (trace s)) as [[m sec] t]. reflexivity.
Qed.

Lemma save_lap_cases (s : state) :
  0 <= lap_count s ->
  (MAX_LAPS <= lap_count s /\ save_lap s = s) \/
  (lap_count s < MAX_LAPS /\ save_lap s = saved s).
Proof.
  intros H0. destruct (Z_lt_le_dec (lap_count s) MAX_LAPS) as [Hl | Hg].
  - right. split; [assumption |]. apply save_lap_room. lia.
  - left. split; [assumption |]. now apply save_lap_full.
Qed.

(** ** [read_lap] *)

Lemma read_lap_beyond (i : Z) (s : state) :
  lap_count s <= i -> read_lap i s = zero_lap.
Proof.
  intros Hi. unfold read_lap.
  now rewrite (proj2 (geb_true_le _ _) Hi).
Qed.

Lemma read_lap_slot (i : Z) (s : state) :
  0 <= i < lap_count s -> lap_count s <= MAX_LAPS -> read_lap i s = slot i s.
Proof.
  unfold MAX_LAPS. intros Hi Hc. unfold read_lap, slot, LAP_RECORD_SIZE.
  rewrite (proj2 (geb_false_lt _ _)) by lia.
  rewrite (wrap_int_small (i * 3)) by lia.
  rewrite !wrap_int_small by lia.
  replace (i * 3 + 0) with (3 * i) by lia.
  replace (i * 3 + 1) with (3 * i + 1) by lia.
  replace (i * 3 + 2) with (3 * i + 2) by lia.
  reflexivity.
Qed.

(** ** What an append writes *)

(** Offsets inside the lap region give pairwise distinct addresses. *)
Lemma lap_addr_neq (i j : Z) :
  0 <= i < 3 * MAX_LAPS -> 0 <= j < 3 * MAX_LAPS -> i <> j ->
  addr_of lap_mem i <> addr_of lap_mem j.
Proof.
  unfold MAX_LAPS. intros Hi Hj Hne He. apply Hne.
  apply (addr_of_inj lap_mem); [lia | exact He].
Qed.

Lemma ram_saved (s : state) (a : Z) :
  a <> addr_of lap_mem (3 * lap_count s) ->
  a <> addr_of lap_mem (3 * lap_count s + 1) ->
  a <> addr_of lap_mem (3 * lap_count s + 2) ->
  ram (saved s) a = ram s a.
Proof.
  intros H0 H1 H2. unfold saved.
  destruct (device_fields (trace s)) as [[m sec] t]. cbn [ram].
  now rewrite !store_other.
Qed.

Lemma peek_saved_old (s : state) (k : Z) :
  0 <= lap_count s < MAX_LAPS -> 0 <= k < 3 * lap_count s ->
  peek k (saved s) = peek k s.
Proof.
  unfold MAX_LAPS. intros Hc Hk. unfold peek, load.
  rewrite ram_saved; [reflexivity | | |];
    apply lap_addr_neq; unfold MAX_LAPS; lia.
Qed.

Lemma slot_saved_new (s : state) :
  0 <= lap_count s < MAX_LAPS ->
  slot (lap_count s) (saved s) = capture (trace s).
Proof.
  unfold MAX_LAPS. intros Hc. unfold slot, capture, saved, peek.
  destruct (device_fields (trace s)) as [[m sec] t]. cbn [ram].
  rewrite load_store_same.
  rewrite (load_store_other _ (addr_of lap_mem (3 * lap_count s + 1)))
    by (apply lap_addr_neq; unfold MAX_LAPS; lia).
  rewrite load_store_same.
  rewrite !(load_store_other _ (addr_of lap_mem (3 * lap_count s)))
    by (apply lap_addr_neq; unfold MAX_LAPS; lia).
  rewrite load_store_same.
  now rewrite !to_uchar_idem.
Qed.

Lemma slot_saved_old (s : state) (i : Z) :
  0 <= lap_count s < MAX_LAPS -> 0 <= i < lap_count s ->
  slot i (saved s) = slot i s.
Proof.
  intros Hc Hi. unfold slot.
  now rewrite !peek_saved_old by lia.
Qed.

(** ** Sequences of appends *)

Lemma lap_count_appends (s0 : state) (n : nat) :
  lap_count s0 = 0 ->
  lap_count (appends n s0) = Z.min (Z.of_nat n) MAX_LAPS.
Proof.
  intros H0. induction n as [| n IH].
  - cbn [appends]. rewrite H0. unfold MAX_LAPS. lia.
  - cbn [appends].
    destruct (save_lap_cases (appends n s0)) as [[Hf He] | [Hr He]];
      try (rewrite IH; unfold MAX_LAPS; lia).
    + rewrite He. rewrite IH in *. unfold MAX_LAPS in *. lia.
    + rewrite He, lap_count_saved. rewrite IH in *. unfold MAX_LAPS in *. lia.
Qed.

Lemma appends_room (s0 : state) (n : nat) :
  lap_count s0 = 0 -> Z.of_nat n < MAX_LAPS ->
  appends (S n) s0 = saved (appends n s0).
Proof.
  intros H0 Hn. cbn [appends]. apply save_lap_room.
  rewrite lap_count_appends by assumption. unfold MAX_LAPS in *. lia.
Qed.

Lemma slot_appends (s0 : state) (n i : nat) :
  lap_count s0 = 0 -> (i < n)%nat -> Z.of_nat i < MAX_LAPS ->
  slot (Z.of_nat i) (appends n s0) = capture (trace (appends i s0)).
Proof.
  intros H0 Hin Hi. induction n as [| n IH]; [lia |].
  pose proof (lap_count_appends s0 n H0) as Hc.
  destruct (save_lap_cases (appends n s0)) as [[Hf He] | [Hr He]];
    try (rewrite Hc; unfold MAX_LAPS; lia).
  - cbn [appends]. rewrite He. apply IH.
    rewrite Hc in Hf. unfold MAX_LAPS in *. lia.
  - cbn [appends]. rewrite He.
    assert (Hroom : 0 <= lap_count (appends n s0) < MAX_LAPS).
    { rewrite Hc. unfold MAX_LAPS in *. lia. }
    destruct (Nat.eq_dec i n) as [-> | Hne].
    + replace (Z.of_nat n) with (lap_count (appends n s0))
        by (rewrite Hc; unfold MAX_LAPS in *; lia).
      now apply slot_saved_new.
    + rewrite slot_saved_old; [apply IH; lia | assumption |].
      rewrite Hc. unfold MAX_LAPS in *. lia.
Qed.

(** ** Claims on the lap store *)

(** C2. With [MAX_LAPS] records in the store [save_lap] changes nothing:
    count, memory and CSR history are the ones before the call.  With fewer
    records the count grows by exactly one. *)
Theorem save_lap_capacity (s : state) :
  (lap_count s = MAX_LAPS -> save_lap s = s) /\
  (0 <= lap_count s < MAX_LAPS -> lap_count (save_lap s) = lap_count s + 1).
Proof.
  split.
  - intros Hfull. apply save_lap_full. lia.
  - intros Hroom. rewrite save_lap_room by assumption. apply lap_count_saved.
Qed.

(** C3. From the empty store, [n] calls of [save_lap] leave the count at
    [min n 16]: [n] up to sixteen calls, sixteen beyond. *)
Theorem count_after_appends (ram0 : Z -> Z) (n : nat) :
  lap_count (appends n (empty_store ram0)) = Z.min (Z.of_nat n) 16 /\
  ((n <= 16)%nat -> lap_count (appends n (empty_store ram0)) = Z.of_nat n) /\
  ((n > 16)%nat -> lap_count (appends n (empty_store ram0)) = 16).
Proof.
  pose proof (lap_count_appends (empty_store ram0) n eq_refl) as H.
  unfold MAX_LAPS in H.
  repeat split; intros; lia.
Qed.

(** C4. After [n] appends from the empty store, reading index [i] below the
    count gives the three bytes captured from the device by append number
    [i]; when the device answered with values that fit a byte, they are the
    device's values themselves. *)
Theorem read_lap_roundtrip (ram0 : Z -> Z) (n : nat) (i : Z) :
  0 <= i < lap_count (appends n (empty_store ram0)) ->
  let h := trace (appends (Z.to_nat i) (empty_store ram0)) in
  read_lap i (appends n (empty_store ram0)) = capture h /\
  (forall m sec t,
      device_fields h = (m, sec, t) ->
      0 <= m < 256 -> 0 <= sec < 256 -> 0 <= t < 256 ->
      read_lap i (appends n (empty_store ram0)) = mkLap m sec t).
Proof.
  intros Hi h.
  pose proof (lap_count_appends (empty_store ram0) n eq_refl) as Hc.
  unfold MAX_LAPS in Hc.
  assert (Hread : read_lap i (appends n (empty_store ram0)) = capture h).
  { rewrite read_lap_slot by (unfold MAX_LAPS; lia).
    rewrite <- (Z2Nat.id i) at 1 by lia.
    apply slot_appends; [reflexivity | |]; unfold MAX_LAPS; lia. }
  split; [exact Hread |].
  intros m sec t Hf Hm Hs Ht. rewrite Hread. unfold capture. rewrite Hf.
  now rewrite !to_uchar_small.
Qed.

(** C7. An append with room stores, in the slot at the old count, each
    register value reduced modulo 256, whatever the device answered: the
    three registers are read once each, in order, and nothing is checked. *)
Theorem save_lap_truncates (s : state) :
  0 <= lap_count s < MAX_LAPS ->
  let '(m, sec, t) := device_fields (trace s) in
  slot (lap_count s) (save_lap s) = mkLap (m mod 256) (sec mod 256) (t mod 256) /\
  trace (save_lap s) =
    trace s ++ [CsrRead MINUTES m; CsrRead SECONDS sec; CsrRead TICKS t].
Proof.
  intros Hroom.
  pose proof (slot_saved_new s Hroom) as Hslot.
  rewrite save_lap_room by assumption.
  unfold capture in Hslot. unfold saved at 2.
  destruct (device_fields (trace s)) as [[m sec] t].
  split; [exact Hslot | reflexivity].
Qed.

(** ** The store under arbitrary sequences of operations *)

Lemma grows_to_refl (s : state) : grows_to s s.
Proof.
  split; [lia | reflexivity].
Qed.

Lemma grows_to_trans (s1 s2 s3 : state) :
  grows_to s1 s2 -> grows_to s2 s3 -> grows_to s1 s3.
Proof.
  intros [Hc12 Hr12] [Hc23 Hr23]. split; [lia |].
  intros a Ha. rewrite Hr23, Hr12; [reflexivity | |]; intros k Hk; apply Ha; lia.
Qed.

Lemma grows_to_saved (s : state) : grows_to s (saved s).
Proof.
  split.
  - rewrite lap_count_saved. lia.
  - intros a Ha. rewrite lap_count_saved in Ha.
    apply ram_saved; apply Ha; lia.
Qed.

Lemma exec_op_grows (o : op) (s : state) :
  0 <= lap_count s <= MAX_LAPS ->
  0 <= lap_count (exec_op o s) <= MAX_LAPS /\ grows_to s (exec_op o s).
Proof.
  intros Hc. destruct o as [| i]; cbn [exec_op].
  - destruct (save_lap_cases s) as [[Hf He] | [Hr He]]; [lia | |]; rewrite He.
    + split; [assumption | apply grows_to_refl].
    + split; [rewrite lap_count_saved; lia | apply grows_to_saved].
  - split; [assumption | apply grows_to_refl].
Qed.

Lemma exec_ops_grows (os : list op) (s : state) :
  0 <= lap_count s <= MAX_LAPS ->
  0 <= lap_count (exec_ops os s) <= MAX_LAPS /\ grows_to s (exec_ops os s).
Proof.
  revert s. induction os as [| o os IH]; intros s Hc.
  - split; [assumption | apply grows_to_refl].
  - change (exec_ops (o :: os) s) with (exec_ops os (exec_op o s)).
    destruct (exec_op_grows o s Hc) as [Hc1 Hg1].
    destruct (IH _ Hc1) as [Hc2 Hg2].
    split; [assumption | eapply grows_to_trans; eassumption].
Qed.

(** C6. Along any sequence of appends and reads from the empty store the
    count stays within 0..[MAX_LAPS] and never decreases; record [i] is
    the three bytes at offsets [3i], [3i+1], [3i+2] of the region; memory
    outside the first [3 * count] bytes of the region is as it was at the
    start; and the bytes of the records present at some point are the same
    after any further appends and reads. *)
Theorem lap_store_invariant (ram0 : Z -> Z) (before after : list op) :
  let s := exec_ops before (empty_store ram0) in
  let s' := exec_ops after s in
  0 <= lap_count s' <= MAX_LAPS /\
  lap_count s <= lap_count s' /\
  (forall i, 0 <= i < lap_count s' -> read_lap i s' = slot i s') /\
  (forall a,
      (forall k, 0 <= k < 3 * lap_count s' -> a <> addr_of lap_mem k) ->
      ram s' a = ram0 a) /\
  (forall k, 0 <= k < 3 * lap_count s ->
      ram s' (addr_of lap_mem k) = ram s (addr_of lap_mem k)).
Proof.
  intros s s'.
  assert (H0 : 0 <= lap_count (empty_store ram0) <= MAX_LAPS)
    by (cbn; unfold MAX_LAPS; lia).
  destruct (exec_ops_grows before _ H0) as [Hc [_ Hr]]. fold s in Hc, Hr.
  destruct (exec_ops_grows after s Hc) as [Hc' [Hm Hr']]. fold s' in Hc', Hm, Hr'.
  repeat split; try lia.
  - intros i Hi. apply read_lap_slot; lia.
  - intros a Ha. rewrite Hr'.
    + apply Hr. intros k Hk. apply Ha. cbn [empty_store lap_count] in Hk. lia.
    + intros k Hk. apply Ha. lia.
  - intros k Hk. apply Hr'. intros k' Hk'.
    apply lap_addr_neq; unfold MAX_LAPS in *; lia.
Qed.

(** ** The busy-wait delay *)

Lemma busy_wait_spec (fuel : nat) (d : Z) :
  0 <= d < 2 ^ 32 ->
  busy_wait fuel d = if d <? Z.of_nat fuel then Some (2 ^ 32 - 1) else None.
Proof.
  revert d. induction fuel as [| fuel IH]; intros d Hd.
  - cbn [busy_wait]. destruct (Z.ltb_spec d (Z.of_nat 0)); [lia | reflexivity].
  - cbn [busy_wait]. unfold post_dec.
    destruct (Z.eqb_spec d 0) as [-> | Hnz]; cbn [negb].
    + destruct (Z.ltb_spec 0 (Z.of_nat (S fuel))); [reflexivity | lia].
    + rewrite wrap_uint_small by lia. rewrite IH by lia.
      destruct (Z.ltb_spec (d - 1) (Z.of_nat fuel));
        destruct (Z.ltb_spec d (Z.of_nat (S fuel))); try reflexivity; lia.
Qed.

Lemma delay_loop_spec (inner fuel : nat) (ms : Z) :
  0 <= ms < 2 ^ 32 ->
  delay_loop inner fuel ms =
  if (ms <? Z.of_nat fuel) && ((ms =? 0) || (1000 <? Z.of_nat inner))
  then Some (2 ^ 32 - 1) else None.
Proof.
  revert ms. induction fuel as [| fuel IH]; intros ms Hms.
  - cbn [delay_loop]. destruct (Z.ltb_spec ms (Z.of_nat 0)); [lia | reflexivity].
  - cbn [delay_loop]. unfold post_dec.
    destruct (Z.eqb_spec ms 0) as [-> | Hnz]; cbn [negb orb].
    + destruct (Z.ltb_spec 0 (Z.of_nat (S fuel))); [reflexivity | lia].
    + rewrite busy_wait_spec by lia.
      destruct (Z.ltb_spec 1000 (Z.of_nat inner)).
      * rewrite wrap_uint_small by lia. rewrite IH by lia.
        rewrite orb_true_r, !andb_true_r.
        destruct (Z.ltb_spec (ms - 1) (Z.of_nat fuel));
          destruct (Z.ltb_spec ms (Z.of_nat (S fuel))); try reflexivity; lia.
      * now rewrite andb_false_r.
Qed.

Lemma delay_ms_spec (fuel : nat) (n : Z) (s : state) :
  0 <= n < 2 ^ 32 ->
  delay_ms fuel n s =
  if (n <? Z.of_nat fuel) && ((n =? 0) || (1000 <? Z.of_nat fuel))
  then Some s else None.
Proof.
  intros Hn. unfold delay_ms.
  rewrite wrap_uint_small by assumption.
  rewrite delay_loop_spec by assumption.
  now destruct ((n <? Z.of_nat fuel) && ((n =? 0) || (1000 <? Z.of_nat fuel))).
Qed.

Lemma delay_ms_frame (fuel : nat) (n : Z) (s s' : state) :
  delay_ms fuel n s = Some s' -> s' = s.
Proof.
  unfold delay_ms. destruct (delay_loop fuel fuel (wrap_uint n)); congruence.
Qed.

Lemma delay_5000 (fuel : nat) (s : state) :
  5000 < Z.of_nat fuel -> delay_ms fuel 5000 s = Some s.
Proof.
  intros Hf. rewrite delay_ms_spec by lia.
  destruct (Z.ltb_spec 5000 (Z.of_nat fuel)); [| lia].
  destruct (Z.ltb_spec 1000 (Z.of_nat fuel)); [| lia].
  reflexivity.
Qed.

(** C10. [delay_ms n] returns for every [unsigned int] [n]: it needs
    [n + 1] evaluations of the outer test ([n] passes through the body) and,
    when [n] is not zero, 1001 evaluations of each inner test (the counter
    goes from 1000 down to 0), and returns whenever it is given them.  The
    state it returns is the state it was called in: count, memory and CSR
    history are untouched. *)
Theorem delay_ms_total (n : Z) (s : state) :
  0 <= n < 2 ^ 32 ->
  (forall fuel,
      delay_ms fuel n s <> None <->
      n < Z.of_nat fuel /\ (n <> 0 -> 1000 < Z.of_nat fuel)) /\
  (forall inner, busy_wait inner 1000 <> None <-> 1000 < Z.of_nat inner) /\
  (exists fuel, delay_ms fuel n s = Some s) /\
  (forall fuel s',
      delay_ms fuel n s = Some s' ->
      s' = s /\ lap_count s' = lap_count s /\ ram s' = ram s /\
      trace s' = trace s).
Proof.
  intros Hn. split; [| split; [| split]].
  - intros fuel. rewrite delay_ms_spec by assumption.
    destruct (Z.ltb_spec n (Z.of_nat fuel)); cbn [andb];
      [| split; [congruence | lia]].
    destruct (Z.eqb_spec n 0) as [Hz | Hnz]; cbn [orb].
    + split; [intros _; split; [assumption | contradiction] | discriminate].
    + destruct (Z.ltb_spec 1000 (Z.of_nat fuel)).
      * split; [intros _; split; intros; assumption | discriminate].
      * split; [congruence | intros [_ Hin]; specialize (Hin Hnz); lia].
  - intros inner. rewrite busy_wait_spec by lia.
    destruct (Z.ltb_spec 1000 (Z.of_nat inner)).
    + split; [intros _; assumption | discriminate].
    + split; [congruence | lia].
  - exists (Z.to_nat (n + 1001)). rewrite delay_ms_spec by assumption.
    rewrite (proj2 (Z.ltb_lt n _)) by lia.
    rewrite (proj2 (Z.ltb_lt 1000 _)) by lia.
    now rewrite orb_true_r.
  - intros fuel s' H. apply delay_ms_frame in H. now subst.
Qed.

(** ** CSR writes leave count and memory alone *)

Lemma lap_count_csr_write (r : csr_reg) (v : Z) (s : state) :
  lap_count (csr_write r v s) = lap_count s.
Proof.
  reflexivity.
Qed.

Lemma trace_csr_write (r : csr_reg) (v : Z) (s : state) :
  trace (csr_write r v s) = trace s ++ [CsrWrite r v].
Proof.
  reflexivity.
Qed.

Lemma appends_S (n : nat) (s : state) :
  appends (S n) s = save_lap (appends n s).
Proof.
  reflexivity.
Qed.

(** ** The control loop *)

Lemma trace_saved (s : state) :
  trace (saved s) =
  trace s ++ (let '(m, sec, t) := device_fields (trace s) in
              [CsrRead MINUTES m; CsrRead SECONDS sec; CsrRead TICKS t]).
Proof.
  unfold saved. now destruct (device_fields (trace s)) as [[m sec] t].
Qed.

Lemma saved_reads_quiet (s : state) (p : event -> bool) :
  (forall r v, p (CsrRead r v) = true) ->
  exists rd, trace (saved s) = trace s ++ rd /\ forallb p rd = true.
Proof.
  intros Hp. rewrite trace_saved.
  destruct (device_fields (trace s)) as [[m sec] t].
  eexists. split; [reflexivity |].
  cbn [forallb]. now rewrite !Hp.
Qed.

(** The read that follows an append with room. *)
Lemma read_back_saved (s : state) :
  0 <= lap_count s < MAX_LAPS ->
  verify_index (saved s) = lap_count s /\
  read_lap (verify_index (saved s)) (saved s) = capture (trace s).
Proof.
  intros Hc.
  assert (Hv : verify_index (saved s) = lap_count s).
  { unfold verify_index. rewrite lap_count_saved.
    unfold MAX_LAPS in Hc. rewrite wrap_int_small; lia. }
  split; [exact Hv |].
  rewrite Hv, read_lap_slot.
  - now apply slot_saved_new.
  - rewrite lap_count_saved. lia.
  - rewrite lap_count_saved. lia.
Qed.

Lemma step_running (fuel : nat) (c : config) :
  at_phase c = RUNNING -> 0 <= lap_count (globals c) < MAX_LAPS ->
  step fuel c =
  match delay_ms fuel 5000 (globals c) with
  | None => None
  | Some _ => Some (cycle c)
  end.
Proof.
  intros Hp Hc. unfold step. rewrite Hp.
  destruct (delay_ms fuel 5000 (globals c)) as [s |] eqn:Hd; [| reflexivity].
  apply delay_ms_frame in Hd. subst s.
  rewrite save_lap_room by assumption.
  destruct (read_back_saved (globals c) Hc) as [_ ->].
  unfold cycle.
  now destruct (lap_count (saved (globals c)) >=? MAX_LAPS).
Qed.

Lemma cycle_phase (c : config) :
  (lap_count (globals c) + 1 < MAX_LAPS ->
   cycle c = mkConfig RUNNING (saved (globals c))
               (Some (capture (trace (globals c))))) /\
  (MAX_LAPS <= lap_count (globals c) + 1 ->
   cycle c = mkConfig HALTED
               (csr_write STOP 0 (csr_write STOP 1 (saved (globals c))))
               (Some (capture (trace (globals c))))).
Proof.
  unfold cycle. rewrite lap_count_saved. split; intros H.
  - now rewrite (proj2 (geb_false_lt _ _) H).
  - now rewrite (proj2 (geb_true_le _ _) H).
Qed.

Lemma step_total (fuel : nat) (c : config) :
  5000 < Z.of_nat fuel -> count_ok c -> exists c', step fuel c = Some c'.
Proof.
  intros Hf Hc. unfold count_ok in Hc.
  destruct (at_phase c) eqn:Hp.
  - unfold step. rewrite Hp. eexists. reflexivity.
  - rewrite step_running, delay_5000 by assumption. eexists. reflexivity.
  - unfold step. rewrite Hp. eexists. reflexivity.
Qed.

Lemma step_keeps (fuel : nat) (c c' : config) :
  step fuel c = Some c' -> count_ok c -> trace_ok c ->
  count_ok c' /\ trace_ok c'.
Proof.
  intros Hs Hc Ht. unfold count_ok, trace_ok in Hc, Ht.
  destruct (at_phase c) eqn:Hp.
  - unfold step in Hs. rewrite Hp in Hs. injection Hs as <-.
    unfold count_ok, trace_ok, csr_write. cbn [at_phase globals lap_count trace].
    split.
    + rewrite Hc. unfold MAX_LAPS. lia.
    + exists []. rewrite Ht. split; reflexivity.
  - rewrite step_running in Hs by assumption.
    destruct (delay_ms fuel 5000 (globals c)); [| discriminate].
    injection Hs as <-.
    destruct Ht as [rest [Htr Hq]].
    destruct (saved_reads_quiet (globals c) (fun e => negb (is_init_cmd e)))
      as [rd [Hrd Hqrd]]; [reflexivity |].
    destruct (cycle_phase c) as [Hrun Hhalt].
    destruct (Z_lt_le_dec (lap_count (globals c) + 1) MAX_LAPS) as [Hl | Hg].
    + rewrite (Hrun Hl). unfold count_ok, trace_ok. cbn [at_phase globals].
      rewrite lap_count_saved. split; [lia |].
      exists (rest ++ rd). rewrite Hrd, Htr, app_assoc.
      split; [reflexivity |]. rewrite forallb_app, Hq, Hqrd. reflexivity.
    + rewrite (Hhalt Hg). unfold count_ok, trace_ok, csr_write.
      cbn [at_phase globals lap_count trace].
      rewrite lap_count_saved. split; [lia |].
      exists ((rest ++ rd) ++ pulse STOP).
      rewrite Hrd, Htr. split.
      * unfold pulse. now rewrite <- !app_assoc.
      * rewrite !forallb_app, Hq, Hqrd. reflexivity.
  - unfold step in Hs. rewrite Hp in Hs. injection Hs as <-.
    unfold count_ok, trace_ok. rewrite Hp. split; assumption.
Qed.

Lemma boot_ok (ram0 : Z -> Z) : count_ok (boot ram0) /\ trace_ok (boot ram0).
Proof.
  split; reflexivity.
Qed.

Lemma run_keeps (fuel n : nat) (c c' : config) :
  run fuel n c = Some c' -> count_ok c -> trace_ok c ->
  count_ok c' /\ trace_ok c'.
Proof.
  revert c. induction n as [| n IH]; intros c Hr Hc Ht.
  - injection Hr as <-. split; assumption.
  - cbn [run] in Hr.
    destruct (step fuel c) as [c1 |] eqn:Hs; [| discriminate].
    destruct (step_keeps _ _ _ Hs Hc Ht) as [Hc1 Ht1].
    now apply (IH c1).
Qed.

Lemma run_total (fuel n : nat) (c : config) :
  5000 < Z.of_nat fuel -> count_ok c -> trace_ok c ->
  exists c', run fuel n c = Some c'.
Proof.
  intros Hf. revert c. induction n as [| n IH]; intros c Hc Ht.
  - eexists. reflexivity.
  - cbn [run]. destruct (step_total fuel c Hf Hc) as [c1 Hs]. rewrite Hs.
    destruct (step_keeps _ _ _ Hs Hc Ht) as [Hc1 Ht1].
    now apply IH.
Qed.

Lemma run_add (fuel n m : nat) (c : config) :
  run fuel (n + m) c =
  match run fuel n c with
  | None => None
  | Some c' => run fuel m c'
  end.
Proof.
  revert c. induction n as [| n IH]; intros c; cbn [run Nat.add].
  - reflexivity.
  - destruct (step fuel c); [apply IH | reflexivity].
Qed.

Lemma run_halted (fuel n : nat) (c : config) :
  at_phase c = HALTED -> run fuel n c = Some c.
Proof.
  intros Hp. induction n as [| n IH]; cbn [run]; [reflexivity |].
  unfold step. now rewrite Hp.
Qed.

(** The first [k] passes through the loop are [k] appends. *)
Lemma run_cycles (ram0 : Z -> Z) (fuel k : nat) :
  5000 < Z.of_nat fuel -> (k < 16)%nat ->
  exists r,
    run fuel (S k) (boot ram0) =
    Some (mkConfig RUNNING (appends k (started ram0)) r).
Proof.
  intros Hf. induction k as [| k IH]; intros Hk.
  - eexists. reflexivity.
  - destruct IH as [r Hr]; [lia |].
    replace (S (S k)) with (S k + 1)%nat by lia.
    rewrite run_add, Hr. cbn [run].
    assert (Hc : lap_count (appends k (started ram0)) = Z.of_nat k).
    { rewrite lap_count_appends by reflexivity. unfold MAX_LAPS. lia. }
    assert (Hroom : 0 <= lap_count (appends k (started ram0)) < MAX_LAPS).
    { rewrite Hc. unfold MAX_LAPS. lia. }
    rewrite (step_running fuel (mkConfig RUNNING (appends k (started ram0)) r)
               eq_refl Hroom).
    rewrite delay_5000 by assumption.
    destruct (cycle_phase (mkConfig RUNNING (appends k (started ram0)) r))
      as [Hrun _].
    rewrite Hrun.
    2:{ cbn [globals]. rewrite Hc. unfold MAX_LAPS. lia. }
    cbn [globals].
    rewrite <- (appends_room (started ram0) k eq_refl).
    2:{ unfold MAX_LAPS. lia. }
    eexists. reflexivity.
Qed.

(** The pass through the loop that fills the last slot. *)
Lemma step_last (fuel : nat) (s : state) (r : option LapRecord) :
  5000 < Z.of_nat fuel -> lap_count s = MAX_LAPS - 1 ->
  exists r',
    step fuel (mkConfig RUNNING s r) =
    Some (mkConfig HALTED (csr_write STOP 0 (csr_write STOP 1 (save_lap s))) r').
Proof.
  intros Hf Hc.
  assert (Hroom : 0 <= lap_count s < MAX_LAPS) by (unfold MAX_LAPS in *; lia).
  rewrite (step_running fuel (mkConfig RUNNING s r) eq_refl Hroom).
  rewrite delay_5000 by assumption.
  destruct (cycle_phase (mkConfig RUNNING s r)) as [_ Hhalt].
  rewrite Hhalt by (cbn [globals]; lia).
  cbn [globals]. rewrite <- save_lap_room by assumption.
  eexists. reflexivity.
Qed.

Lemma run_to_halt (ram0 : Z -> Z) (fuel : nat) :
  5000 < Z.of_nat fuel ->
  exists c,
    run fuel 17 (boot ram0) = Some c /\
    at_phase c = HALTED /\
    globals c = csr_write STOP 0 (csr_write STOP 1 (appends 16 (started ram0))).
Proof.
  intros Hf.
  destruct (run_cycles ram0 fuel 15 Hf) as [r Hr]; [lia |].
  assert (Hc : lap_count (appends 15 (started ram0)) = MAX_LAPS - 1).
  { rewrite lap_count_appends by reflexivity. reflexivity. }
  destruct (step_last fuel (appends 15 (started ram0)) r Hf Hc) as [r' Hs].
  rewrite <- appends_S in Hs.
  eexists. split; [| split].
  - change 17%nat with (16 + 1)%nat. rewrite run_add, Hr.
    cbn [run]. rewrite Hs. reflexivity.
  - reflexivity.
  - reflexivity.
Qed.

Lemma writes_of_appends (s0 : state) (n : nat) :
  lap_count s0 = 0 ->
  filter is_write (trace (appends n s0)) = filter is_write (trace s0).
Proof.
  intros H0. induction n as [| n IH]; [reflexivity |].
  cbn [appends].
  pose proof (lap_count_appends s0 n H0) as Hc.
  destruct (save_lap_cases (appends n s0)) as [[_ He] | [_ He]];
    try (rewrite Hc; unfold MAX_LAPS; lia); rewrite He; [exact IH |].
  rewrite trace_saved.
  destruct (device_fields (trace (appends n s0))) as [[m sec] t].
  rewrite filter_app, IH. cbn [filter is_write]. apply app_nil_r.
Qed.

Lemma step_leaves_init (fuel : nat) (c c' : config) :
  step fuel c = Some c' -> at_phase c' <> INIT.
Proof.
  unfold step. destruct (at_phase c) eqn:Hp.
  - intros H. injection H as <-. discriminate.
  - destruct (delay_ms fuel 5000 (globals c)); [| discriminate].
    destruct (lap_count _ >=? MAX_LAPS); intros H; injection H as <-;
      discriminate.
  - intros H. injection H as <-. congruence.
Qed.

Lemma run_leaves_init (fuel n : nat) (c c' : config) :
  run fuel (S n) c = Some c' -> at_phase c' <> INIT.
Proof.
  revert c. induction n as [| n IH]; intros c Hr.
  - cbn [run] in Hr. destruct (step fuel c) as [c1 |] eqn:Hs; [| discriminate].
    injection Hr as <-. now apply step_leaves_init in Hs.
  - change (run fuel (S (S n)) c) with
      (match step fuel c with None => None | Some c1 => run fuel (S n) c1 end)
      in Hr.
    destruct (step fuel c) as [c1 |]; [| discriminate].
    now apply (IH c1).
Qed.

(** ** Claims on the control loop *)

(** C5. From the empty store [main] goes through the loop body exactly
    sixteen times: after the two initial pulses and [k] passes ([k] below
    sixteen) it is still in the loop with [k] laps stored, each pass being
    one append; the sixteenth pass brings the count to [MAX_LAPS], writes
    one stop pulse and leaves the loop.  From then on the configuration
    never changes: no append, no CSR access.  The only writes of the whole
    run are the reset, start and stop pulses. *)
Theorem main_halts_after_16_laps (ram0 : Z -> Z) (fuel : nat) :
  5000 < Z.of_nat fuel ->
  (forall k, (k < 16)%nat ->
     exists c,
       run fuel (S k) (boot ram0) = Some c /\
       at_phase c = RUNNING /\
       lap_count (globals c) = Z.of_nat k /\
       globals c = appends k (started ram0)) /\
  (exists c h,
     run fuel 17 (boot ram0) = Some c /\
     at_phase c = HALTED /\
     lap_count (globals c) = MAX_LAPS /\
     globals c = csr_write STOP 0 (csr_write STOP 1 (appends 16 (started ram0))) /\
     trace (globals c) = h ++ [CsrWrite STOP 1; CsrWrite STOP 0] /\
     filter is_write h = init_pulses /\
     forall j, run fuel (17 + j) (boot ram0) = Some c).
Proof.
  intros Hf. split.
  - intros k Hk. destruct (run_cycles ram0 fuel k Hf Hk) as [r Hr].
    eexists. split; [exact Hr |]. cbn [at_phase globals].
    split; [reflexivity |]. split; [| reflexivity].
    rewrite lap_count_appends by reflexivity. unfold MAX_LAPS. lia.
  - destruct (run_to_halt ram0 fuel Hf) as [c (Hr & Hp & Hg)].
    exists c, (trace (appends 16 (started ram0))).
    split; [exact Hr |]. split; [exact Hp |]. split.
    { rewrite Hg, !lap_count_csr_write.
      rewrite lap_count_appends by reflexivity. reflexivity. }
    split; [exact Hg |]. split.
    { rewrite Hg, !trace_csr_write. now rewrite <- app_assoc. }
    split.
    { rewrite writes_of_appends by reflexivity. reflexivity. }
    intros j. rewrite run_add, Hr. now apply run_halted.
Qed.

(** C8. Whatever the number of steps [main] has made, its CSR history
    begins with write 1, write 0 on the reset line, then write 1, write 0
    on the start line, before any register is read, and nothing after
    these four writes is a write to the reset or to the start line.  With
    fuel for its delays [main] does make any number of steps. *)
Theorem init_pulses_once (ram0 : Z -> Z) (fuel n : nat) :
  (5000 < Z.of_nat fuel -> exists c, run fuel (S n) (boot ram0) = Some c) /\
  (forall c,
     run fuel (S n) (boot ram0) = Some c ->
     exists rest,
       trace (globals c) =
         [CsrWrite RESET 1; CsrWrite RESET 0; CsrWrite START 1; CsrWrite START 0]
         ++ rest /\
       forallb (fun e => negb (is_init_cmd e)) rest = true).
Proof.
  destruct (boot_ok ram0) as [Hc0 Ht0]. split.
  - intros Hf. now apply run_total.
  - intros c Hr.
    destruct (run_keeps _ _ _ _ Hr Hc0 Ht0) as [_ Ht].
    apply run_leaves_init in Hr.
    unfold trace_ok in Ht.
    destruct (at_phase c); [contradiction | exact Ht | exact Ht].
Qed.

(** C9. Each time [main] is at the head of its loop, the append that
    follows has room and leaves a count of at least one; the read that
    comes next is called with [lap_count - 1], which lies in
    0..[MAX_LAPS - 1], so it never takes a negative index, and it returns
    the record just captured from the device, which is what [main] keeps
    in [m], [s], [t]. *)
Theorem verify_read_in_range (ram0 : Z -> Z) (fuel n : nat) (c : config) :
  5000 < Z.of_nat fuel ->
  run fuel n (boot ram0) = Some c ->
  at_phase c = RUNNING ->
  let s := save_lap (globals c) in
  lap_count s = lap_count (globals c) + 1 /\
  1 <= lap_count s /\
  verify_index s = lap_count s - 1 /\
  0 <= verify_index s < MAX_LAPS /\
  read_lap (verify_index s) s = slot (lap_count (globals c)) s /\
  read_lap (verify_index s) s = capture (trace (globals c)) /\
  exists c',
    step fuel c = Some c' /\ shown c' = Some (capture (trace (globals c))).
Proof.
  intros Hf Hr Hp s.
  destruct (boot_ok ram0) as [Hc0 Ht0].
  destruct (run_keeps _ _ _ _ Hr Hc0 Ht0) as [Hc _].
  unfold count_ok in Hc. rewrite Hp in Hc.
  destruct (read_back_saved (globals c) Hc) as [Hv Hrd].
  subst s. rewrite (save_lap_room (globals c) Hc).
  rewrite Hrd, Hv, lap_count_saved.
  repeat split; try lia.
  - symmetry. now apply slot_saved_new.
  - rewrite step_running, delay_5000 by assumption.
    eexists. split; [reflexivity |].
    unfold cycle. now destruct (lap_count (saved (globals c)) >=? MAX_LAPS).
Qed.

(** ** [read_lap] below the region *)

(** A negative index passes the test against the count, and the bytes
    read are the ones in front of the region. *)
Lemma read_lap_negative (i : Z) (s : state) :
  - 2 ^ 29 <= i < 0 -> 0 <= lap_count s -> read_lap i s = slot i s.
Proof.
  intros Hi Hc. unfold read_lap, slot, LAP_RECORD_SIZE.
  rewrite (proj2 (geb_false_lt _ _)) by lia.
  rewrite (wrap_int_small (i * 3)) by lia.
  rewrite !wrap_int_small by lia.
  replace (i * 3 + 0) with (3 * i) by lia.
  replace (i * 3 + 1) with (3 * i + 1) by lia.
  replace (i * 3 + 2) with (3 * i + 2) by lia.
  reflexivity.
Qed.

(** ** Further properties of the lap store *)

Lemma read_lap_csr_write (i : Z) (r : csr_reg) (v : Z) (s : state) :
  read_lap i (csr_write r v s) = read_lap i s.
Proof.
  reflexivity.
Qed.

Lemma length_trace_saved (s : state) :
  length (trace (saved s)) = (length (trace s) + 3)%nat.
Proof.
  rewrite trace_saved. destruct (device_fields (trace s)) as [[m sec] t].
  now rewrite length_app.
Qed.

Lemma regs_saved (s : state) :
  map event_reg (trace (saved s)) = map event_reg (trace s) ++ lap_reads.
Proof.
  rewrite trace_saved. destruct (device_fields (trace s)) as [[m sec] t].
  now rewrite map_app.
Qed.

Lemma writes_saved (s : state) :
  filter is_write (trace (saved s)) = filter is_write (trace s).
Proof.
  rewrite trace_saved. destruct (device_fields (trace s)) as [[m sec] t].
  rewrite filter_app. cbn [filter is_write]. apply app_nil_r.
Qed.

Lemma appends_full (s0 : state) (n : nat) :
  lap_count s0 = 0 -> (16 <= n)%nat -> appends n s0 = appends 16 s0.
Proof.
  intros H0 Hn. induction Hn as [| n Hn IH]; [reflexivity |].
  rewrite appends_S, IH. apply save_lap_full.
  rewrite lap_count_appends by assumption. unfold MAX_LAPS. lia.
Qed.

Lemma length_trace_appends (s0 : state) (n : nat) :
  lap_count s0 = 0 -> (n <= 16)%nat ->
  length (trace (appends n s0)) = (length (trace s0) + 3 * n)%nat.
Proof.
  intros H0. induction n as [| n IH]; intros Hn.
  - cbn [appends]. lia.
  - rewrite appends_room by (try assumption; unfold MAX_LAPS; lia).
    rewrite length_trace_saved, IH by lia. lia.
Qed.

(** X1. The store after [n] appends from a store with no laps is the store
    after [min n 16] appends, history of CSR accesses included: the device
    has been read [3 * min n 16] times, so an append made at capacity does
    not even sample the stopwatch. *)
Theorem appends_saturate (s0 : state) (n : nat) :
  lap_count s0 = 0 ->
  appends n s0 = appends (Nat.min n 16) s0 /\
  length (trace (appends n s0)) = (length (trace s0) + 3 * Nat.min n 16)%nat.
Proof.
  intros H0. destruct (Nat.le_gt_cases n 16) as [Hle | Hgt].
  - rewrite Nat.min_l by assumption. split; [reflexivity |].
    now apply length_trace_appends.
  - rewrite Nat.min_r by lia. split.
    + apply appends_full; [assumption | lia].
    + rewrite (appends_full s0 n) by (try assumption; lia).
      now apply length_trace_appends.
Qed.

(** X2. What [read_lap] sees after an append with room, for every index
    from zero up: the records below the old count are the ones it saw
    before, the index equal to the old count now gives the record captured
    from the device, and every larger index still gives the zero record. *)
Theorem read_lap_after_save_lap (s : state) (i : Z) :
  0 <= lap_count s < MAX_LAPS -> 0 <= i ->
  read_lap i (save_lap s) =
  if i <? lap_count s then read_lap i s
  else if i =? lap_count s then capture (trace s)
  else zero_lap.
Proof.
  intros Hc Hi. rewrite save_lap_room by assumption.
  destruct (Z.ltb_spec i (lap_count s)) as [Hlt | Hge].
  - rewrite !read_lap_slot; try lia.
    + apply slot_saved_old; lia.
    + rewrite lap_count_saved. lia.
    + rewrite lap_count_saved. lia.
  - destruct (Z.eqb_spec i (lap_count s)) as [-> | Hne].
    + rewrite read_lap_slot.
      * now apply slot_saved_new.
      * rewrite lap_count_saved. lia.
      * rewrite lap_count_saved. lia.
    + apply read_lap_beyond. rewrite lap_count_saved. lia.
Qed.

(** X3. [read_lap] on a store with at most [MAX_LAPS] records, over the
    indices for which [index * 3] fits an [int]: from zero up it returns
    the three bytes of slot [index] below the count and the zero record
    from the count on; a negative index is not stopped by the test against
    the count and returns the three bytes at offsets [3 * index] to
    [3 * index + 2], in front of the region. *)
Theorem read_lap_by_index (s : state) (i : Z) :
  0 <= lap_count s <= MAX_LAPS -> - 2 ^ 29 <= i ->
  read_lap i s = if (i <? 0) || (i <? lap_count s) then slot i s else zero_lap.
Proof.
  intros Hc Hi. destruct (Z.ltb_spec i 0) as [Hneg | Hpos]; cbn [orb].
  - apply read_lap_negative; lia.
  - destruct (Z.ltb_spec i (lap_count s)) as [Hlt | Hge].
    + apply read_lap_slot; lia.
    + now apply read_lap_beyond.
Qed.

(** ** Further properties of the control loop *)

Lemma run_invariant (P : config -> Prop) (fuel : nat) :
  (forall c c', step fuel c = Some c' -> count_ok c -> P c -> P c') ->
  forall n c c',
    run fuel n c = Some c' -> count_ok c -> trace_ok c -> P c -> P c'.
Proof.
  intros Hstep. induction n as [| n IH]; intros c c' Hr Hc Ht HP.
  - injection Hr as <-. exact HP.
  - cbn [run] in Hr.
    destruct (step fuel c) as [c1 |] eqn:Hs; [| discriminate].
    destruct (step_keeps _ _ _ Hs Hc Ht) as [Hc1 Ht1].
    apply (IH c1 c'); try assumption. now apply (Hstep c c1).
Qed.

(** One step of [main] from a configuration it can be in. *)
Lemma step_cases (fuel : nat) (c c' : config) :
  step fuel c = Some c' -> count_ok c ->
  (at_phase c = INIT /\
   c' = mkConfig RUNNING
          (csr_write START 0 (csr_write START 1
             (csr_write RESET 0 (csr_write RESET 1 (globals c)))))
          (shown c)) \/
  (at_phase c = RUNNING /\ lap_count (globals c) + 1 < MAX_LAPS /\
   c' = mkConfig RUNNING (saved (globals c))
          (Some (capture (trace (globals c))))) \/
  (at_phase c = RUNNING /\ lap_count (globals c) + 1 = MAX_LAPS /\
   c' = mkConfig HALTED
          (csr_write STOP 0 (csr_write STOP 1 (saved (globals c))))
          (Some (capture (trace (globals c))))) \/
  (at_phase c = HALTED /\ c' = c).
Proof.
  intros Hs Hc. unfold count_ok in Hc.
  destruct (at_phase c) eqn:Hp.
  - left. unfold step in Hs. rewrite Hp in Hs. injection Hs as <-.
    split; reflexivity.
  - right. rewrite step_running in Hs by assumption.
    destruct (delay_ms fuel 5000 (globals c)); [| discriminate].
    injection Hs as <-.
    destruct (cycle_phase c) as [Hrun Hhalt].
    destruct (Z_lt_le_dec (lap_count (globals c) + 1) MAX_LAPS) as [Hl | Hg].
    + left. split; [reflexivity |]. split; [assumption |]. now apply Hrun.
    + right. left. split; [reflexivity |]. split; [lia |]. now apply Hhalt.
  - right. right. right. unfold step in Hs. rewrite Hp in Hs.
    injection Hs as <-. split; reflexivity.
Qed.


Lemma concat_repeat_snoc (A : Type) (l : list A) (n : nat) :
  concat (repeat l (S n)) = concat (repeat l n) ++ l.
Proof.
  induction n as [| n IH].
  - cbn. apply app_nil_r.
  - change (concat (repeat l (S (S n)))) with (l ++ concat (repeat l (S n))).
    rewrite IH at 1. rewrite app_assoc. reflexivity.
Qed.


(** X5. The command writes of [main], in whatever configuration it is
    after any number of steps: none before the initial pulses, the reset
    and start pulses and nothing else while it is in its loop, and these
    followed by one stop pulse once it has halted.  In particular the
    stopwatch is not stopped while laps are still being taken. *)
Theorem main_command_writes (ram0 : Z -> Z) (fuel n : nat) (c : config) :
  run fuel n (boot ram0) = Some c ->
  filter is_write (trace (globals c)) = writes_of (at_phase c).
Proof.
  intros Hr.
  destruct (boot_ok ram0) as [Hc0 Ht0].
  apply (run_invariant
           (fun c => filter is_write (trace (globals c)) = writes_of (at_phase c))
           fuel) with (n := n) (c := boot ram0); try assumption.
  intros c1 c2 Hs Hc HP.
  destruct (step_cases _ _ _ Hs Hc)
    as [[Hp ->] | [(Hp & Hl & ->) | [(Hp & Hl & ->) | [_ ->]]]];
    cbn [globals at_phase]; try rewrite Hp in HP; cbn [writes_of] in *.
  - rewrite !trace_csr_write, !filter_app, HP. reflexivity.
  - now rewrite writes_saved.
  - rewrite !trace_csr_write, !filter_app, writes_saved, HP.
    cbn [filter is_write]. now rewrite <- app_assoc.
  - exact HP.
Qed.

(** X6. The order in which [main] accesses the CSRs, in whatever
    configuration it is after any number of steps: reset twice, start
    twice, then minutes, seconds, ticks once for each lap stored, and
    stop twice at the end once it has halted. *)
Theorem main_access_order (ram0 : Z -> Z) (fuel n : nat) (c : config) :
  run fuel n (boot ram0) = Some c ->
  map event_reg (trace (globals c)) =
  access_order (at_phase c) (Z.to_nat (lap_count (globals c))).
Proof.
  intros Hr.
  destruct (boot_ok ram0) as [Hc0 Ht0].
  apply (run_invariant
           (fun c => map event_reg (trace (globals c)) =
                     access_order (at_phase c) (Z.to_nat (lap_count (globals c))))
           fuel) with (n := n) (c := boot ram0); try assumption;
    [| reflexivity].
  intros c1 c2 Hs Hc HP. unfold count_ok in Hc.
  destruct (step_cases _ _ _ Hs Hc)
    as [[Hp ->] | [(Hp & Hl & ->) | [(Hp & Hl & ->) | [_ ->]]]];
    cbn [globals at_phase]; try rewrite Hp in HP, Hc; cbn [access_order] in *.
  - rewrite !lap_count_csr_write, Hc.
    rewrite !trace_csr_write, !map_app, HP. reflexivity.
  - rewrite lap_count_saved, regs_saved, HP.
    replace (Z.to_nat (lap_count (globals c1) + 1))
      with (S (Z.to_nat (lap_count (globals c1)))) by lia.
    now rewrite concat_repeat_snoc, app_assoc.
  - rewrite !lap_count_csr_write, lap_count_saved.
    rewrite !trace_csr_write, !map_app, regs_saved, HP.
    replace (Z.to_nat (lap_count (globals c1) + 1))
      with (S (Z.to_nat (lap_count (globals c1)))) by lia.
    rewrite concat_repeat_snoc, app_assoc, <- (app_assoc _ [STOP] [STOP]).
    reflexivity.
  - exact HP.
Qed.

(** The record [main] holds in [m], [s], [t] after pass [k + 1]. *)
Lemma run_shown (ram0 : Z -> Z) (fuel k : nat) :
  5000 < Z.of_nat fuel -> (k < 16)%nat ->
  exists c,
    run fuel (S (S k)) (boot ram0) = Some c /\
    shown c = Some (capture (trace (appends k (started ram0)))).
Proof.
  intros Hf Hk.
  destruct (run_cycles ram0 fuel k Hf Hk) as [r Hr].
  assert (Hroom : 0 <= lap_count (appends k (started ram0)) < MAX_LAPS).
  { rewrite lap_count_appends by reflexivity. unfold MAX_LAPS. lia. }
  replace (S (S k)) with (S k + 1)%nat by lia.
  rewrite run_add, Hr. cbn [run].
  rewrite (step_running fuel (mkConfig RUNNING (appends k (started ram0)) r)
             eq_refl Hroom).
  rewrite delay_5000 by assumption.
  eexists. split; [reflexivity |].
  unfold cycle. cbn [globals].
  now destruct (lap_count (saved (appends k (started ram0))) >=? MAX_LAPS).
Qed.

Lemma read_lap_appends (s0 : state) (n i : nat) :
  lap_count s0 = 0 -> (i < n)%nat -> (n <= 16)%nat ->
  read_lap (Z.of_nat i) (appends n s0) = capture (trace (appends i s0)).
Proof.
  intros H0 Hi Hn.
  rewrite read_lap_slot.
  - apply slot_appends; [assumption | assumption | unfold MAX_LAPS; lia].
  - rewrite lap_count_appends by assumption. unfold MAX_LAPS. lia.
  - rewrite lap_count_appends by assumption. unfold MAX_LAPS. lia.
Qed.

(** X7. When [main] has halted, the store holds the sixteen laps of the
    run: index [k] reads as the record captured in pass [k + 1] of the
    loop, which is the record [main] read back into [m], [s], [t] during
    that pass, and every index from sixteen up reads as the zero record. *)
Theorem halted_store_holds_the_laps (ram0 : Z -> Z) (fuel : nat) :
  5000 < Z.of_nat fuel ->
  exists c,
    run fuel 17 (boot ram0) = Some c /\
    at_phase c = HALTED /\
    (forall k, (k < 16)%nat ->
       read_lap (Z.of_nat k) (globals c) =
         capture (trace (appends k (started ram0))) /\
       exists ck,
         run fuel (S (S k)) (boot ram0) = Some ck /\
         shown ck = Some (read_lap (Z.of_nat k) (globals c))) /\
    (forall i, MAX_LAPS <= i -> read_lap i (globals c) = zero_lap).
Proof.
  intros Hf.
  destruct (run_to_halt ram0 fuel Hf) as [c (Hr & Hp & Hg)].
  exists c. split; [exact Hr |]. split; [exact Hp |]. split.
  - intros k Hk.
    assert (Hread : read_lap (Z.of_nat k) (globals c) =
                    capture (trace (appends k (started ram0)))).
    { rewrite Hg, !read_lap_csr_write.
      apply read_lap_appends; [reflexivity | assumption | lia]. }
    split; [exact Hread |].
    destruct (run_shown ram0 fuel k Hf Hk) as [ck [Hrk Hsk]].
    exists ck. split; [exact Hrk |]. now rewrite Hread.
  - intros i Hi. rewrite Hg, !read_lap_csr_write.
    apply read_lap_beyond.
    rewrite lap_count_appends by reflexivity. unfold MAX_LAPS in *. lia.
Qed.

End Firmware.

(** * The theorems at work on a concrete board *)

(** C1. [read_lap] called with index -1 on an empty store, when the byte
    in front of the lap region holds 7: the index is outside 0..count-1,
    yet the record returned is not the zero record but the bytes found
    below the base of the region. *)
Theorem read_lap_negative_index_nonzero :
  let s := mkState 0 (fun a => if a =? demo_base - 3 then 7 else 0) [] in
  ~ (0 <= -1 < lap_count s) /\
  read_lap demo_base (-1) s = mkLap 7 0 0 /\
  read_lap demo_base (-1) s <> zero_lap.
Proof.
  intros s. split; [| split].
  - cbn. lia.
  - vm_compute. reflexivity.
  - vm_compute. discriminate.
Qed.

Lemma save_lap_capacity_witness :
  let full := mkState 16 (filled 0) [] in
  let part := mkState 3 (filled 0) [] in
  save_lap demo_base (counting_stopwatch 0) full = full /\
  lap_count (save_lap demo_base (counting_stopwatch 0) part) = 3 + 1.
Proof.
  intros full part. split.
  - apply (proj1 (save_lap_capacity demo_base (counting_stopwatch 0) full)).
    reflexivity.
  - apply (proj2 (save_lap_capacity demo_base (counting_stopwatch 0) part)).
    cbn. unfold MAX_LAPS. lia.
Defined.

Lemma count_after_appends_witness :
  (20 > 16)%nat /\
  lap_count (appends demo_base (counting_stopwatch 0) 20 (empty_store (filled 0)))
  = 16.
Proof.
  assert (H : (20 > 16)%nat) by lia.
  split; [exact H |].
  exact (proj2 (proj2 (count_after_appends demo_base (counting_stopwatch 0)
                         (filled 0) 20)) H).
Defined.

Lemma read_lap_roundtrip_witness :
  let s := appends demo_base (counting_stopwatch 1) 3 (empty_store (filled 0)) in
  0 <= 1 < lap_count s /\
  read_lap demo_base 1 s = mkLap 4 5 6.
Proof.
  intros s.
  assert (H : 0 <= 1 < lap_count s)
    by (vm_compute; split; [discriminate | reflexivity]).
  split; [exact H |].
  refine (proj2 (read_lap_roundtrip demo_base (counting_stopwatch 1)
                   (filled 0) 3 1 H) 4 5 6 _ _ _ _).
  - vm_compute. reflexivity.
  - lia.
  - lia.
  - lia.
Defined.

Lemma main_halts_after_16_laps_witness :
  5000 < Z.of_nat (Z.to_nat 5001) /\
  exists c,
    run demo_base (counting_stopwatch 0) (Z.to_nat 5001) 17 (boot (filled 0))
    = Some c /\
    at_phase c = HALTED /\ lap_count (globals c) = MAX_LAPS.
Proof.
  assert (H : 5000 < Z.of_nat (Z.to_nat 5001)) by lia.
  split; [exact H |].
  destruct (main_halts_after_16_laps demo_base (counting_stopwatch 0)
              (filled 0) (Z.to_nat 5001) H)
    as [_ [c [h (Hr & Hp & Hc & _)]]].
  exists c. split; [exact Hr | split; [exact Hp | exact Hc]].
Defined.

Lemma lap_store_invariant_witness :
  let s := exec_ops demo_base (counting_stopwatch 0)
             [Append; Read 0; Append] (empty_store (filled 0)) in
  let s' := exec_ops demo_base (counting_stopwatch 0) [Read 5; Append] s in
  0 <= 4 < 3 * lap_count s /\
  ram s' (addr_of (lap_mem demo_base) 4) = ram s (addr_of (lap_mem demo_base) 4).
Proof.
  intros s s'.
  assert (H : 0 <= 4 < 3 * lap_count s)
    by (vm_compute; split; [discriminate | reflexivity]).
  split; [exact H |].
  pose proof (lap_store_invariant demo_base (counting_stopwatch 0) (filled 0)
                [Append; Read 0; Append] [Read 5; Append]) as T.
  cbv zeta in T. destruct T as (_ & _ & _ & _ & T).
  exact (T 4 H).
Defined.

Lemma save_lap_truncates_witness :
  let s := mkState 3 (filled 0) [] in
  0 <= lap_count s < MAX_LAPS /\
  slot demo_base 3 (save_lap demo_base (counting_stopwatch 300) s)
  = mkLap 44 45 46.
Proof.
  intros s.
  assert (H : 0 <= lap_count s < MAX_LAPS)
    by (vm_compute; split; [discriminate | reflexivity]).
  split; [exact H |].
  pose proof (save_lap_truncates demo_base (counting_stopwatch 300) s H) as T.
  vm_compute in T. destruct T as [T _].
  vm_compute. exact T.
Defined.

Lemma init_pulses_once_witness :
  5000 < Z.of_nat (Z.to_nat 5001) /\
  exists c rest,
    run demo_base (counting_stopwatch 0) (Z.to_nat 5001) 3 (boot (filled 0))
    = Some c /\
    trace (globals c) =
      [CsrWrite RESET 1; CsrWrite RESET 0; CsrWrite START 1; CsrWrite START 0]
      ++ rest.
Proof.
  assert (H : 5000 < Z.of_nat (Z.to_nat 5001)) by lia.
  split; [exact H |].
  destruct (init_pulses_once demo_base (counting_stopwatch 0) (filled 0)
              (Z.to_nat 5001) 2) as [Hex Htr].
  destruct (Hex H) as [c Hc].
  destruct (Htr c Hc) as [rest [Ht _]].
  exists c, rest. split; [exact Hc | exact Ht].
Defined.

Lemma verify_read_in_range_witness :
  let c := mkConfig RUNNING (started (filled 0)) None in
  let s := save_lap demo_base (counting_stopwatch 0) (globals c) in
  5000 < Z.of_nat (Z.to_nat 5001) /\
  run demo_base (counting_stopwatch 0) (Z.to_nat 5001) 1 (boot (filled 0))
  = Some c /\
  at_phase c = RUNNING /\
  0 <= verify_index s < MAX_LAPS /\
  read_lap demo_base (verify_index s) s
  = capture (counting_stopwatch 0) (trace (globals c)).
Proof.
  intros c s.
  assert (H : 5000 < Z.of_nat (Z.to_nat 5001)) by lia.
  assert (Hr : run demo_base (counting_stopwatch 0) (Z.to_nat 5001) 1
                 (boot (filled 0)) = Some c) by reflexivity.
  assert (Hp : at_phase c = RUNNING) by reflexivity.
  split; [exact H |]. split; [exact Hr |]. split; [exact Hp |].
  pose proof (verify_read_in_range demo_base (counting_stopwatch 0) (filled 0)
                (Z.to_nat 5001) 1 c H Hr Hp) as T.
  cbv zeta in T. destruct T as (_ & _ & _ & Hi & _ & Hrd & _).
  split; [exact Hi | exact Hrd].
Defined.

Lemma delay_ms_total_witness :
  0 <= 3 < 2 ^ 32 /\
  exists fuel,
    delay_ms fuel 3 (empty_store (filled 0)) = Some (empty_store (filled 0)).
Proof.
  assert (H : 0 <= 3 < 2 ^ 32) by lia.
  split; [exact H |].
  exact (proj1 (proj2 (proj2 (delay_ms_total 3 (empty_store (filled 0)) H)))).
Defined.

Lemma appends_saturate_witness :
  let s0 := empty_store (filled 0) in
  lap_count s0 = 0 /\
  appends demo_base (counting_stopwatch 0) 20 s0
  = appends demo_base (counting_stopwatch 0) 16 s0 /\
  length (trace (appends demo_base (counting_stopwatch 0) 20 s0)) = 48%nat.
Proof.
  intros s0.
  assert (H : lap_count s0 = 0) by reflexivity.
  split; [exact H |].
  destruct (appends_saturate demo_base (counting_stopwatch 0) s0 20 H)
    as [He Hl].
  split; [exact He | exact Hl].
Defined.

Lemma read_lap_after_save_lap_witness :
  let s := mkState 3 (filled 0) [] in
  0 <= lap_count s < MAX_LAPS /\ 0 <= 3 /\
  read_lap demo_base 3 (save_lap demo_base (counting_stopwatch 1) s)
  = capture (counting_stopwatch 1) (trace s).
Proof.
  intros s.
  assert (Hc : 0 <= lap_count s < MAX_LAPS)
    by (vm_compute; split; [discriminate | reflexivity]).
  assert (Hi : 0 <= 3) by lia.
  split; [exact Hc |]. split; [exact Hi |].
  exact (read_lap_after_save_lap demo_base (counting_stopwatch 1) s 3 Hc Hi).
Defined.

Lemma read_lap_by_index_witness :
  let s := mkState 2 (fun a => a - demo_base) [] in
  0 <= lap_count s <= MAX_LAPS /\ - 2 ^ 29 <= -1 /\
  read_lap demo_base (-1) s = slot demo_base (-1) s.
Proof.
  intros s.
  assert (Hc : 0 <= lap_count s <= MAX_LAPS)
    by (vm_compute; split; discriminate).
  assert (Hi : - 2 ^ 29 <= -1) by lia.
  split; [exact Hc |]. split; [exact Hi |].
  exact (read_lap_by_index demo_base s (-1) Hc Hi).
Defined.


Lemma main_command_writes_witness :
  let c := mkConfig RUNNING (started (filled 9)) None in
  run demo_base (counting_stopwatch 0) (Z.to_nat 5001) 1 (boot (filled 9))
  = Some c /\
  filter is_write (trace (globals c)) = init_pulses.
Proof.
  intros c.
  assert (Hr : run demo_base (counting_stopwatch 0) (Z.to_nat 5001) 1
                 (boot (filled 9)) = Some c) by reflexivity.
  split; [exact Hr |].
  exact (main_command_writes demo_base (counting_stopwatch 0) (filled 9)
           (Z.to_nat 5001) 1 c Hr).
Defined.

Lemma main_access_order_witness :
  let c := mkConfig RUNNING (started (filled 9)) None in
  run demo_base (counting_stopwatch 0) (Z.to_nat 5001) 1 (boot (filled 9))
  = Some c /\
  map event_reg (trace (globals c)) = [RESET; RESET; START; START].
Proof.
  intros c.
  assert (Hr : run demo_base (counting_stopwatch 0) (Z.to_nat 5001) 1
                 (boot (filled 9)) = Some c) by reflexivity.
  split; [exact Hr |].
  exact (main_access_order demo_base (counting_stopwatch 0) (filled 9)
           (Z.to_nat 5001) 1 c Hr).
Defined.

Lemma halted_store_holds_the_laps_witness :
  5000 < Z.of_nat (Z.to_nat 5001) /\
  exists c,
    run demo_base (counting_stopwatch 0) (Z.to_nat 5001) 17 (boot (filled 0))
    = Some c /\
    at_phase c = HALTED /\
    read_lap demo_base 16 (globals c) = zero_lap.
Proof.
  assert (H : 5000 < Z.of_nat (Z.to_nat 5001)) by lia.
  split; [exact H |].
  destruct (halted_store_holds_the_laps demo_base (counting_stopwatch 0)
              (filled 0) (Z.to_nat 5001) H) as [c (Hr & Hp & _ & Hz)].
  exists c. split; [exact Hr |]. split; [exact Hp |].
  apply Hz. unfold MAX_LAPS. lia.
Defined.
